(** * Sleep As Android integration: topic templating, sensor registry,
      message dispatch and configuration migration.

    A shallow embedding of [custom_components/sleep_as_android/__init__.py]
    (class [SleepAsAndroidInstance]) together with the properties its
    specification states about it. *)

From Stdlib Require Import ZArith Ascii String.
From stdpp Require Import gmap strings list fin_maps.


(** ** Python values, exceptions and results *)

(** The exception classes that the modelled code can raise or catch. *)
Inductive PyExn : Type :=
  | KeyError
  | IndexError
  | TypeError
  | AttributeError
  | NoEntitySpecifiedError
  | OtherError.

Global Instance PyExn_eq_dec : EqDecision PyExn.
Proof. solve_decision. Defined.

(** The outcome of a Python expression: a value, or a raised exception. *)
Inductive result (A : Type) : Type :=
  | Ok (a : A)
  | Raise (e : PyExn).
Arguments Ok {A} a.
Arguments Raise {A} e.

Definition bind {A B : Type} (r : result A) (k : A -> result B) : result B :=
  match r with
  | Ok a => k a
  | Raise e => Raise e
  end.

Notation "'let*' x ':=' r 'in' k" := (bind r (fun x => k))
  (at level 10, x name, r at level 100, k at level 200).

(** [try: r except exn: h] -- the handler runs only for the named class. *)
Definition try_except {A : Type} (r : result A) (exn : PyExn) (h : result A)
  : result A :=
  match r with
  | Ok a => Ok a
  | Raise e => if decide (e = exn) then h else Raise e
  end.

(** Values stored in a configuration dictionary: strings and integers. *)
Inductive PyVal : Type :=
  | VStr (s : string)
  | VInt (z : Z).

Global Instance PyVal_eq_dec : EqDecision PyVal.
Proof. solve_decision. Defined.

(** [d[k]] on a dict. *)
Definition dict_get {V : Type} (d : gmap string V) (k : string) : result V :=
  match d !! k with
  | Some v => Ok v
  | None => Raise KeyError
  end.

(** ** Strings: [str.split], [str.join], [str.replace] *)

(** [s.split(sep)] for a one-character separator. *)
Fixpoint split (sep : ascii) (s : string) : list string :=
  match s with
  | EmptyString => [EmptyString]
  | String c s' =>
      if decide (c = sep) then EmptyString :: split sep s'
      else match split sep s' with
           | [] => [String c EmptyString]
           | h :: t => String c h :: t
           end
  end.

Arguments split sep%_char s%_string.

(** [sep.join(l)]. *)
Fixpoint join (sep : string) (l : list string) : string :=
  match l with
  | [] => EmptyString
  | x :: t =>
      match t with
      | [] => x
      | _ :: _ => x +:+ sep +:+ join sep t
      end
  end.

(** [String.prefix]-style test and [s[n:]]. *)
Fixpoint starts_with (p s : string) : bool :=
  match p, s with
  | EmptyString, _ => true
  | String a p', String b s' => if decide (a = b) then starts_with p' s' else false
  | String _ _, EmptyString => false
  end.

Fixpoint drop_chars (n : nat) (s : string) : string :=
  match n, s with
  | O, _ => s
  | S n', String _ s' => drop_chars n' s'
  | S _, EmptyString => EmptyString
  end.

(** [s.replace(old, new, 1)]: the leftmost occurrence of [old] is replaced. *)
Fixpoint replace_first (old new s : string) : string :=
  if starts_with old s then new +:+ drop_chars (String.length old) s
  else match s with
       | EmptyString => EmptyString
       | String c s' => String c (replace_first old new s')
       end.

(** ** Lists: indexing, item assignment, slicing *)

(** [l[i]] with Python's negative indices; out of range raises IndexError. *)
Definition py_index {A : Type} (l : list A) (i : Z) : result A :=
  let n := Z.of_nat (length l) in
  let j := if (i <? 0)%Z then (n + i)%Z else i in
  if ((0 <=? j) && (j <? n))%Z
  then match l !! Z.to_nat j with
       | Some x => Ok x
       | None => Raise IndexError
       end
  else Raise IndexError.

(** [l[i] = x]; out of range raises IndexError. *)
Definition py_setitem {A : Type} (l : list A) (i : Z) (x : A) : result (list A) :=
  let n := Z.of_nat (length l) in
  let j := if (i <? 0)%Z then (n + i)%Z else i in
  if ((0 <=? j) && (j <? n))%Z
  then Ok (<[Z.to_nat j := x]> l)
  else Raise IndexError.

(** [l[:-1]]. *)
Definition py_init {A : Type} (l : list A) : list A :=
  take (length l - 1) l.

(** [a + b] where [b] is a [str]: a TypeError unless [a] is a [str] too. *)
Definition py_add_str (a : PyVal) (b : string) : result string :=
  match a with
  | VStr s => Ok (s +:+ b)
  | VInt _ => Raise TypeError
  end.

(** [a.split('/')]: only a [str] has the method. *)
Definition py_split (a : PyVal) : result (list string) :=
  match a with
  | VStr s => Ok (split "/" s)
  | VInt _ => Raise AttributeError
  end.

(** ** The integration instance *)

(** [ConfigEntry]: the two dictionaries the code reads. *)
Record ConfigEntry : Type := {
  options : gmap string PyVal;
  data : gmap string PyVal
}.

(** Modelled from the spec: class [SleepAsAndroidSensor] of [sensor.py].  A
    sensor is an object constructed for one device name; [sensor_id] is the
    identity of the object (two handles are the same handle iff their
    identities are equal). *)
Record Sensor : Type := {
  sensor_id : nat;
  sensor_name : string
}.

Global Instance Sensor_eq_dec : EqDecision Sensor.
Proof. solve_decision. Defined.

(** An MQTT message as the callback sees it. *)
Record Message : Type := {
  topic : string;
  payload : string
}.

(** [SleepAsAndroidInstance].  [fresh] is the allocator of object identities
    for the sensors this instance constructs. *)
Record Instance : Type := {
  _config_entry : ConfigEntry;
  __sensors : gmap string Sensor;
  _name : PyVal;
  _updating : bool;
  fresh : nat
}.

(** What the message callback does to the outside world. *)
Inductive Event : Type :=
  | EvAddEntities (new_entities : list Sensor)
  | EvProcessMessage (target : Sensor) (msg : Message).

Section SleepAsAndroid.

(** [DEVICE_MACRO] of [const.py]: the placeholder token. *)
Variable DEVICE_MACRO : string.

(** [SleepAsAndroidSensor.process_message] of [sensor.py]: what the call
    returns or raises. *)
Variable process_message : Sensor -> Message -> result unit.

(** [options[name]], and [data[name]] when the options lack the key. *)
Definition get_from_config (ce : ConfigEntry) (name : string) : result PyVal :=
  try_except (dict_get (options ce) name) KeyError (dict_get (data ce) name).

(** [__init__]: the name and the migration flag are fixed here. *)
Definition init (config_entry : ConfigEntry) : result Instance :=
  let* name := try_except (get_from_config config_entry "name") KeyError
                          (Ok (VStr "SleepAsAndroid")) in
  let updating :=
    match dict_get (options config_entry) "topic_template" with
    | Ok _ => false
    | Raise _ => true
    end in
  Ok {| _config_entry := config_entry;
        __sensors := ∅;
        _name := name;
        _updating := updating;
        fresh := 0 |}.

Definition name (self : Instance) : PyVal := _name self.

Definition configured_topic (self : Instance) : result PyVal :=
  try_except (get_from_config (_config_entry self) "topic_template") KeyError
             (Ok (VStr ("SleepAsAndroid/" +:+ DEVICE_MACRO))).

(** The loop of [device_position_in_topic]: it stops at the first segment
    equal to the token and adds one to [result] for every other segment. *)
Fixpoint position_loop (parts : list string) (result : Z) : Z :=
  match parts with
  | [] => result
  | p :: rest =>
      if decide (p = DEVICE_MACRO) then result
      else position_loop rest (result + 1)%Z
  end.

Definition device_position_in_topic (self : Instance) : result Z :=
  let* t := configured_topic self in
  let* parts := py_split t in
  Ok (position_loop parts 0%Z).

(** The handler around [s[position]] names KeyError. *)
Definition device_name_from_topic_and_position (topic : string) (position : Z)
  : result string :=
  let result := "unknown_device" in
  let s := split "/" topic in
  try_except (py_index s position) KeyError (Ok result).

Definition device_name_from_topic (self : Instance) (topic : string)
  : result string :=
  let* position := device_position_in_topic self in
  device_name_from_topic_and_position topic position.

(** The configured topic with the segment at the position set to "+". *)
Definition topic_template (self : Instance) : result string :=
  let* t := configured_topic self in
  let* splitted := py_split t in
  let* position := device_position_in_topic self in
  let* splitted' := py_setitem splitted position "+" in
  Ok (join "/" splitted').

Definition create_entity_id (self : Instance) (device_name : string)
  : result string :=
  let* prefix := py_add_str (name self) "_" in
  Ok (prefix +:+ device_name).

Definition device_name_from_entity_id (self : Instance) (entity_id : string)
  : result string :=
  let* prefix := py_add_str (name self) "_" in
  Ok (replace_first prefix EmptyString entity_id).

(** [get_sensor]: the handle, whether it is new, and the instance after. *)
Definition get_sensor (self : Instance) (sensor_name : string)
  : Sensor * bool * Instance :=
  match dict_get (__sensors self) sensor_name with
  | Ok s => (s, false, self)
  | Raise _ =>
      let new_sensor := {| sensor_id := fresh self; sensor_name := sensor_name |} in
      (new_sensor, true,
       {| _config_entry := _config_entry self;
          __sensors := <[sensor_name := new_sensor]> (__sensors self);
          _name := _name self;
          _updating := _updating self;
          fresh := S (fresh self) |})
  end.

(** The callback [message_received]: the instance after, the events in the
    order they happen, and what the callback returns or raises. *)
Definition message_received (self : Instance) (msg : Message)
  : Instance * list Event * result unit :=
  match device_name_from_topic self (topic msg) with
  | Raise e => (self, [], Raise e)
  | Ok device_name =>
      match create_entity_id self device_name with
      | Raise e => (self, [], Raise e)
      | Ok entity_id =>
          let '(target_sensor, is_new, self') := get_sensor self device_name in
          let announce := if is_new then [EvAddEntities [target_sensor]] else [] in
          (self',
           announce ++ [EvProcessMessage target_sensor msg],
           try_except (process_message target_sensor msg)
                      NoEntitySpecifiedError (Ok tt))
      end
  end.

(** The messaging client delivers the messages one at a time; an exception
    that escapes the callback does not stop the delivery of the next. *)
Fixpoint deliver (self : Instance) (msgs : list Message)
  : Instance * list Event :=
  match msgs with
  | [] => (self, [])
  | m :: rest =>
      let '(self', evs, _) := message_received self m in
      let '(self'', evs') := deliver self' rest in
      (self'', evs ++ evs')
  end.

(** The dictionary that [self_update] hands to [async_update_entry]. *)
Definition self_update_options (self : Instance) : result (gmap string PyVal) :=
  let old_options := options (_config_entry self) in
  let* new_options :=
    try_except
      (let* n := dict_get old_options "name" in
       let* q := dict_get old_options "qos" in
       Ok (<["qos" := q]> (<["name" := n]> (∅ : gmap string PyVal))))
      KeyError
      (Ok (<["qos" := VInt 0]> (<["name" := _name self]> (∅ : gmap string PyVal)))) in
  let* new_topic :=
    try_except
      (let* topic := dict_get old_options "root_topic" in
       let* t := py_add_str topic "/" in
       Ok (VStr (t +:+ DEVICE_MACRO)))
      KeyError
      (try_except
         (let* topic := dict_get old_options "topic" in
          let* parts := py_split topic in
          Ok (VStr ((join "/" (py_init parts) +:+ "/") +:+ DEVICE_MACRO)))
         KeyError
         (configured_topic self)) in
  Ok (<["topic_template" := new_topic]> new_options).

(** [self_update]: the entry's options are replaced and the flag cleared. *)
Definition self_update (self : Instance) : result Instance :=
  let* new_options := self_update_options self in
  Ok {| _config_entry := {| options := new_options;
                            data := data (_config_entry self) |};
        __sensors := __sensors self;
        _name := _name self;
        _updating := false;
        fresh := fresh self |}.

End SleepAsAndroid.

(** * Definitions used to state the properties *)

(** Does the character occur in the string? *)
Fixpoint has_char (c : ascii) (s : string) : bool :=
  match s with
  | EmptyString => false
  | String a s' => if decide (a = c) then true else has_char c s'
  end.
Arguments has_char c%_char s%_string.

(** [s.find(old)]: the index at which the leftmost occurrence starts. *)
Fixpoint find (old s : string) : option nat :=
  if starts_with old s then Some 0
  else match s with
       | EmptyString => None
       | String _ s' => S <$> find old s'
       end.

(** The legacy topic fields, where present, hold strings: [root_topic] is
    looked at first, [topic] only when [root_topic] is absent. *)
Definition legacy_topics_ok (old_options : gmap string PyVal) : bool :=
  match old_options !! "root_topic" with
  | Some (VStr _) => true
  | Some (VInt _) => false
  | None =>
      match old_options !! "topic" with
      | Some (VInt _) => false
      | _ => true
      end
  end.

(** The topic as the specification words it: the last '/'-delimited segment
    is dropped and replaced with the placeholder token. *)
Definition replace_last_segment_spec (token t : string) : string :=
  join "/" (py_init (split "/" t) ++ [token]).

(** What holds of the registry of every instance that [init] and the calls
    of [get_sensor] can produce: a sensor is stored under its own name, its
    identity has been allocated, and no identity is stored twice. *)
Definition registry_wf (self : Instance) : Prop :=
  (∀ k s, __sensors self !! k = Some s →
          sensor_name s = k ∧ sensor_id s < fresh self) ∧
  (∀ k1 k2 s1 s2, __sensors self !! k1 = Some s1 →
                  __sensors self !! k2 = Some s2 →
                  sensor_id s1 = sensor_id s2 → k1 = k2).

(** [get_sensor] called for each name of a list in turn. *)
Fixpoint get_sensors (self : Instance) (names : list string)
  : list Sensor * Instance :=
  match names with
  | [] => ([], self)
  | n :: rest =>
      let '(s, _, self') := get_sensor self n in
      let '(ss, self'') := get_sensors self' rest in
      (s :: ss, self'')
  end.

(** Is the event about the sensor of this device name? *)
Definition event_about (device : string) (ev : Event) : bool :=
  match ev with
  | EvAddEntities new_entities =>
      existsb (λ s, bool_decide (sensor_name s = device)) new_entities
  | EvProcessMessage target _ => bool_decide (sensor_name target = device)
  end.

Section Auxiliary.

Variable DEVICE_MACRO : string.

(** The first [try] statement of [self_update]. *)
Definition migrated_fields (self : Instance) : gmap string PyVal :=
  match options (_config_entry self) !! "name",
        options (_config_entry self) !! "qos" with
  | Some n, Some q => <["qos" := q]> (<["name" := n]> ∅)
  | _, _ => <["qos" := VInt 0]> (<["name" := _name self]> ∅)
  end.

(** The second, nested [try] statement of [self_update]. *)
Definition migrated_topic (self : Instance) : result PyVal :=
  match options (_config_entry self) !! "root_topic" with
  | Some topic =>
      let* t := py_add_str topic "/" in Ok (VStr (t +:+ DEVICE_MACRO))
  | None =>
      match options (_config_entry self) !! "topic" with
      | Some topic =>
          let* parts := py_split topic in
          Ok (VStr ((join "/" (py_init parts) +:+ "/") +:+ DEVICE_MACRO))
      | None => configured_topic DEVICE_MACRO self
      end
  end.

(** The device name for which the callback reaches [get_sensor], if it
    does: both the extraction and [create_entity_id] must return. *)
Definition handled_name (self : Instance) (msg : Message) : option string :=
  match device_name_from_topic DEVICE_MACRO self (topic msg) with
  | Ok device_name =>
      match create_entity_id self device_name with
      | Ok _ => Some device_name
      | Raise _ => None
      end
  | Raise _ => None
  end.

(** The messages of a sequence that are handled for a device name. *)
Definition messages_for (self : Instance) (device : string)
    (msgs : list Message) : list Message :=
  List.filter (λ m, bool_decide (handled_name self m = Some device)) msgs.

Definition events_for (device : string) (evs : list Event) : list Event :=
  List.filter (event_about device) evs.

End Auxiliary.

(** * Setting up an entry and subscribing *)

Section Setup.

(** [DEVICE_MACRO] of [const.py]. *)
Variable DEVICE_MACRO : string.


(** [subscribe_root_topic] up to the call of [async_subscribe_topics]: the
    topic and the qos of the request.  The arguments of the debug message
    are evaluated first, then the entries of the dictionary in order. *)
Definition subscribe_request (self : Instance) : result (string * PyVal) :=
  let* _ := topic_template DEVICE_MACRO self in
  let* _ := configured_topic DEVICE_MACRO self in
  let* topic := topic_template DEVICE_MACRO self in
  let* qos := dict_get (data (_config_entry self)) "qos" in
  Ok (topic, qos).

(** The device names for which the callback reaches [get_sensor], in the
    order of the messages. *)
Definition handled_names (self : Instance) (msgs : list Message) : list string :=
  omap (handled_name DEVICE_MACRO self) msgs.

End Setup.

(** How many times the entity-creation callback is called in a trace. *)
Definition is_announcement (ev : Event) : bool :=
  match ev with
  | EvAddEntities _ => true
  | EvProcessMessage _ _ => false
  end.

Definition count_announcements (evs : list Event) : nat :=
  length (List.filter is_announcement evs).

(** * Concrete configurations *)

(** The placeholder token of the released integration. *)
Definition device_macro : string := "{device}".

Definition entry_with (opts : gmap string PyVal) : ConfigEntry :=
  {| options := opts; data := ∅ |}.

(** A session right after construction from the given options. *)
Definition session_with (opts : gmap string PyVal) : Instance :=
  {| _config_entry := entry_with opts;
     __sensors := ∅;
     _name := VStr "SleepAsAndroid";
     _updating := false;
     fresh := 0 |}.

Definition templated (t : string) : Instance :=
  session_with {[ "topic_template" := VStr t ]}.

Definition always_ok : Sensor -> Message -> result unit := λ _ _, Ok tt.

(** A session whose entry holds a topic in the options and a [qos] in the
    data. *)
Definition subscribed_session (t : string) (qos : Z) : Instance :=
  {| _config_entry := {| options := {[ "topic_template" := VStr t ]};
                         data := {[ "qos" := VInt qos ]} |};
     __sensors := ∅;
     _name := VStr "SleepAsAndroid";
     _updating := false;
     fresh := 0 |}.

Definition short_topic_message : Message :=
  {| topic := "home"; payload := "alarm_alert_start" |}.

Definition phone1_state : Message :=
  {| topic := "home/phone1/state"; payload := "sleep_tracking_started" |}.

Definition phone1_again : Message :=
  {| topic := "home/phone1/state"; payload := "sleep_tracking_stopped" |}.

(** * Properties *)

(** ** The string and list primitives on examples *)

Example split_ex1 : split "/" "home/phone1/state" = ["home"; "phone1"; "state"].
Proof. reflexivity. Qed.
Example split_ex2 : split "/" EmptyString = [EmptyString].
Proof. reflexivity. Qed.
Example split_ex3 : split "/" "/a/" = [EmptyString; "a"; EmptyString].
Proof. reflexivity. Qed.
Example join_ex1 : join "/" ["home"; "+"; "state"] = "home/+/state".
Proof. reflexivity. Qed.
Example replace_ex1 : replace_first "S_" EmptyString "aS_bS_c" = "abS_c".
Proof. reflexivity. Qed.
Example replace_ex2 : replace_first EmptyString "x" "abc" = "xabc".
Proof. reflexivity. Qed.
Example index_ex1 : py_index [1;2;3]%Z (-1) = Ok 3%Z.
Proof. reflexivity. Qed.
Example index_ex2 : py_index [1;2;3]%Z 3 = Raise IndexError.
Proof. reflexivity. Qed.


(** ** Strings *)

#[local] Arguments String.append !s1 s2 : simpl nomatch.

Lemma append_assoc (a b c : string) : (a +:+ b) +:+ c = a +:+ b +:+ c.
Proof. induction a as [|x a IH]; simpl; [done | by rewrite IH]. Qed.

Lemma split_not_nil sep s : split sep s ≠ [].
Proof.
  destruct s as [|c s]; simpl; [done |].
  destruct (decide (c = sep)); [done |].
  by destruct (split sep s).
Qed.

Lemma split_length_pos sep s : 0 < length (split sep s).
Proof.
  pose proof (split_not_nil sep s) as H.
  destruct (split sep s); [done | simpl; lia].
Qed.

Lemma split_no_char sep s : has_char sep s = false → split sep s = [s].
Proof.
  induction s as [|c s IH]; simpl; [done |].
  destruct (decide (c = sep)); [done |].
  intros H. by rewrite (IH H).
Qed.

Lemma split_app_sep sep a b :
  split sep (a +:+ String sep b) = split sep a ++ split sep b.
Proof.
  induction a as [|c a IH]; simpl.
  - by rewrite decide_True.
  - destruct (decide (c = sep)); rewrite IH; [done |].
    pose proof (split_not_nil sep a) as Hne.
    by destruct (split sep a).
Qed.

Lemma split_elems sep s : Forall (λ x, has_char sep x = false) (split sep s).
Proof.
  induction s as [|c s IH]; simpl.
  - by constructor.
  - destruct (decide (c = sep)).
    + by constructor.
    + pose proof (split_not_nil sep s) as Hne.
      destruct (split sep s) as [|h t]; [done |].
      inversion IH as [|? ? Hh Ht]; subst.
      constructor; [| done]. simpl. by rewrite decide_False.
Qed.

Lemma split_join sep l :
  l ≠ [] → Forall (λ x, has_char sep x = false) l →
  split sep (join (String sep EmptyString) l) = l.
Proof.
  induction l as [|x t IH]; [done |].
  intros _ Hall. inversion Hall as [|? ? Hx Ht]; subst.
  destruct t as [|y t].
  - simpl. by apply split_no_char.
  - change (join (String sep EmptyString) (x :: y :: t))
      with (x +:+ String sep (join (String sep EmptyString) (y :: t))).
    rewrite split_app_sep, (split_no_char _ _ Hx), IH; done.
Qed.

Lemma join_split sep s : join (String sep EmptyString) (split sep s) = s.
Proof.
  induction s as [|c s IH]; simpl; [done |].
  pose proof (split_not_nil sep s) as Hne.
  destruct (decide (c = sep)) as [->|Hc].
  - destruct (split sep s) as [|h t]; [done |]. simpl in *. by rewrite IH.
  - destruct (split sep s) as [|h t]; [done |].
    destruct t as [|h' t]; simpl in *; by rewrite <- IH.
Qed.

Lemma starts_with_app p b : starts_with p (p +:+ b) = true.
Proof. induction p as [|c p IH]; simpl; [done | by rewrite decide_True]. Qed.

Lemma starts_with_inv p s : starts_with p s = true → ∃ b, s = p +:+ b.
Proof.
  revert s. induction p as [|c p IH]; intros s H; simpl in *.
  - by exists s.
  - destruct s as [|d s]; [done |].
    destruct (decide (c = d)) as [->|]; [| done].
    destruct (IH _ H) as [b ->]. by exists b.
Qed.

Lemma drop_chars_app p b : drop_chars (String.length p) (p +:+ b) = b.
Proof. induction p as [|c p IH]; simpl; [by destruct b | done]. Qed.

Lemma replace_first_eq old new s :
  replace_first old new s =
  if starts_with old s then new +:+ drop_chars (String.length old) s
  else match s with
       | EmptyString => EmptyString
       | String c s' => String c (replace_first old new s')
       end.
Proof. by destruct s. Qed.

Lemma replace_first_prefix old new b :
  replace_first old new (old +:+ b) = new +:+ b.
Proof. by rewrite replace_first_eq, starts_with_app, drop_chars_app. Qed.

(** Replacing at an occurrence before which no other occurrence starts. *)
Lemma replace_first_leftmost old new a b :
  (∀ a' b', a +:+ old +:+ b = a' +:+ old +:+ b' →
            String.length a ≤ String.length a') →
  replace_first old new (a +:+ old +:+ b) = a +:+ new +:+ b.
Proof.
  induction a as [|c a IH]; intros Hmin.
  - exact (replace_first_prefix old new b).
  - change (String c a +:+ old +:+ b) with (String c (a +:+ old +:+ b)).
    rewrite replace_first_eq.
    destruct (starts_with old (String c (a +:+ old +:+ b))) eqn:E.
    + apply starts_with_inv in E as [b' E].
      specialize (Hmin EmptyString b'). simpl in Hmin. specialize (Hmin E). lia.
    + simpl. f_equal. apply IH. intros a' b' Heq.
      specialize (Hmin (String c a') b'). simpl in Hmin.
      rewrite Heq in Hmin. specialize (Hmin eq_refl). lia.
Qed.

Lemma replace_first_absent old new s :
  (∀ a b, s ≠ a +:+ old +:+ b) → replace_first old new s = s.
Proof.
  induction s as [|c s IH]; intros Habs.
  - rewrite replace_first_eq. destruct (starts_with old EmptyString) eqn:E; [| done].
    apply starts_with_inv in E as [b E]. by destruct (Habs EmptyString b).
  - rewrite replace_first_eq. destruct (starts_with old (String c s)) eqn:E.
    + apply starts_with_inv in E as [b E]. by destruct (Habs EmptyString b).
    + f_equal. apply IH. intros a b ->. by apply (Habs (String c a) b).
Qed.

(** ** Indexing and item assignment *)

Lemma py_index_in_range {A : Type} (l : list A) (i : nat) (x : A) :
  l !! i = Some x → py_index l (Z.of_nat i) = Ok x.
Proof.
  intros H. pose proof (lookup_lt_Some _ _ _ H) as Hlt.
  unfold py_index.
  destruct (Z.ltb_spec (Z.of_nat i) 0); [lia |].
  destruct (Z.leb_spec 0 (Z.of_nat i)); [| lia].
  destruct (Z.ltb_spec (Z.of_nat i) (Z.of_nat (length l))); [| lia].
  simpl. by rewrite Nat2Z.id, H.
Qed.

Lemma py_index_past_end {A : Type} (l : list A) (i : nat) :
  length l ≤ i → py_index l (Z.of_nat i) = Raise IndexError.
Proof.
  intros H. unfold py_index.
  destruct (Z.ltb_spec (Z.of_nat i) 0); [lia |].
  destruct (Z.ltb_spec (Z.of_nat i) (Z.of_nat (length l))); [lia |].
  by rewrite andb_false_r.
Qed.

Lemma py_setitem_in_range {A : Type} (l : list A) (i : nat) (x : A) :
  i < length l → py_setitem l (Z.of_nat i) x = Ok (<[i := x]> l).
Proof.
  intros H. unfold py_setitem.
  destruct (Z.ltb_spec (Z.of_nat i) 0); [lia |].
  destruct (Z.leb_spec 0 (Z.of_nat i)); [| lia].
  destruct (Z.ltb_spec (Z.of_nat i) (Z.of_nat (length l))); [| lia].
  simpl. by rewrite Nat2Z.id.
Qed.

Lemma py_setitem_past_end {A : Type} (l : list A) (i : nat) (x : A) :
  length l ≤ i → py_setitem l (Z.of_nat i) x = Raise IndexError.
Proof.
  intros H. unfold py_setitem.
  destruct (Z.ltb_spec (Z.of_nat i) 0); [lia |].
  destruct (Z.ltb_spec (Z.of_nat i) (Z.of_nat (length l))); [lia |].
  by rewrite andb_false_r.
Qed.

(** ** Topic templating *)

Section TopicTemplate.

Variable DEVICE_MACRO : string.

Lemma position_loop_first (parts : list string) (i : nat) (acc : Z) :
  parts !! i = Some DEVICE_MACRO →
  (∀ j, j < i → parts !! j ≠ Some DEVICE_MACRO) →
  position_loop DEVICE_MACRO parts acc = (acc + Z.of_nat i)%Z.
Proof.
  revert i acc. induction parts as [|p rest IH]; intros i acc Hi Hbefore.
  - by rewrite lookup_nil in Hi.
  - simpl. destruct i as [|i].
    + simpl in Hi. injection Hi as ->. rewrite decide_True by done. lia.
    + destruct (decide (p = DEVICE_MACRO)) as [->|Hp].
      * exfalso. apply (Hbefore 0); [lia | done].
      * rewrite (IH i); [lia | done |].
        intros j Hj. apply (Hbefore (S j)). lia.
Qed.

Lemma position_loop_absent (parts : list string) (acc : Z) :
  Forall (λ p, p ≠ DEVICE_MACRO) parts →
  position_loop DEVICE_MACRO parts acc = (acc + Z.of_nat (length parts))%Z.
Proof.
  intros H. revert acc. induction H as [|p rest Hp Hrest IH]; intros acc.
  - simpl. lia.
  - simpl. rewrite decide_False by done. rewrite IH. lia.
Qed.

(** X3: for an index the topic has a segment at, the extraction returns
    that segment. *)
Lemma device_name_segment (raw_topic : string) (i : nat) (seg : string) :
  split "/" raw_topic !! i = Some seg →
  device_name_from_topic_and_position raw_topic (Z.of_nat i) = Ok seg.
Proof.
  intros H. unfold device_name_from_topic_and_position.
  by rewrite (py_index_in_range _ _ _ H).
Qed.

(** X4: for an index at or past the number of segments of the topic, the
    IndexError of the list escapes the handler, which names KeyError: the
    extraction raises IndexError. *)
Lemma device_name_past_end (raw_topic : string) (i : nat) :
  length (split "/" raw_topic) ≤ i →
  device_name_from_topic_and_position raw_topic (Z.of_nat i) = Raise IndexError.
Proof.
  intros H. unfold device_name_from_topic_and_position.
  by rewrite (py_index_past_end _ _ H).
Qed.

(** C1: on a topic with fewer than i+1 segments the extraction does not
    return the sentinel "unknown_device"; it raises IndexError.  Evaluated
    at the topic "home/phone1" (two segments) and index 2. *)
Theorem device_name_short_topic_raises :
  length (split "/" "home/phone1") = 2 ∧
  device_name_from_topic_and_position "home/phone1" 2 = Raise IndexError ∧
  device_name_from_topic_and_position "home/phone1" 2 ≠ Ok "unknown_device".
Proof. repeat split; done. Qed.

(** C2 (amended): when no segment of the configured topic equals the
    placeholder token, the derived index is the number of segments, and
    no wildcard topic is derived: the item assignment at that index raises
    IndexError. *)
Theorem position_without_placeholder (self : Instance) (t : string) :
  configured_topic DEVICE_MACRO self = Ok (VStr t) →
  Forall (λ p, p ≠ DEVICE_MACRO) (split "/" t) →
  device_position_in_topic DEVICE_MACRO self
    = Ok (Z.of_nat (length (split "/" t))) ∧
  topic_template DEVICE_MACRO self = Raise IndexError.
Proof.
  intros Ht Habs.
  assert (device_position_in_topic DEVICE_MACRO self
          = Ok (Z.of_nat (length (split "/" t)))) as Hpos.
  { unfold device_position_in_topic. rewrite Ht. simpl.
    by rewrite (position_loop_absent _ _ Habs). }
  split; [done |].
  unfold topic_template. rewrite Ht. simpl. rewrite Hpos. simpl.
  by rewrite py_setitem_past_end.
Qed.

(** C3: when segment i of the configured topic is the first one equal to
    the placeholder token, the derived index is i, the wildcard topic is
    the configured topic with segment i alone replaced by "+", it has as
    many segments as the configured topic, and any instance with the same
    configured topic derives the same index and the same wildcard. *)
Theorem position_and_wildcard_of_placeholder
    (self : Instance) (t : string) (i : nat) :
  configured_topic DEVICE_MACRO self = Ok (VStr t) →
  split "/" t !! i = Some DEVICE_MACRO →
  (∀ j, j < i → split "/" t !! j ≠ Some DEVICE_MACRO) →
  device_position_in_topic DEVICE_MACRO self = Ok (Z.of_nat i) ∧
  (∃ w, topic_template DEVICE_MACRO self = Ok w ∧
        w = join "/" (<[i := "+"]> (split "/" t)) ∧
        split "/" w = <[i := "+"]> (split "/" t) ∧
        length (split "/" w) = length (split "/" t)) ∧
  (∀ other, configured_topic DEVICE_MACRO other
              = configured_topic DEVICE_MACRO self →
            device_position_in_topic DEVICE_MACRO other
              = device_position_in_topic DEVICE_MACRO self ∧
            topic_template DEVICE_MACRO other
              = topic_template DEVICE_MACRO self).
Proof.
  intros Ht Hi Hfirst.
  assert (device_position_in_topic DEVICE_MACRO self = Ok (Z.of_nat i)) as Hpos.
  { unfold device_position_in_topic. rewrite Ht. simpl.
    by rewrite (position_loop_first _ _ _ Hi Hfirst). }
  pose proof (lookup_lt_Some _ _ _ Hi) as Hlt.
  assert (split "/" (join "/" (<[i := "+"]> (split "/" t)))
          = <[i := "+"]> (split "/" t)) as Hsplit.
  { apply split_join.
    - intros Hnil. apply (f_equal length) in Hnil.
      rewrite length_insert in Hnil. simpl in Hnil. lia.
    - apply Forall_insert; [apply split_elems | done]. }
  split; [done |]. split.
  - exists (join "/" (<[i := "+"]> (split "/" t))).
    split; [| split; [done | split; [done |]]].
    + unfold topic_template. rewrite Ht. simpl. rewrite Hpos. simpl.
      by rewrite py_setitem_in_range.
    + by rewrite Hsplit, length_insert.
  - intros other Hsame.
    assert (device_position_in_topic DEVICE_MACRO other
            = device_position_in_topic DEVICE_MACRO self) as Hp.
    { unfold device_position_in_topic. by rewrite Hsame. }
    split; [done |]. unfold topic_template. by rewrite Hsame, Hp.
Qed.

End TopicTemplate.

(** ** Entity identifiers *)

Lemma find_eq old s :
  find old s =
  if starts_with old s then Some 0
  else match s with
       | EmptyString => None
       | String _ s' => S <$> find old s'
       end.
Proof. by destruct s. Qed.

Lemma find_None_absent old s :
  find old s = None → ∀ a b, s ≠ a +:+ old +:+ b.
Proof.
  induction s as [|c s IH]; intros Hf a b Heq; rewrite find_eq in Hf.
  - destruct a; [| done]. simpl in Heq.
    rewrite Heq, starts_with_app in Hf. done.
  - destruct (starts_with old (String c s)) eqn:E; [done |].
    destruct (find old s) eqn:Ef; [done |].
    destruct a as [|x a]; simpl in Heq.
    + rewrite Heq, starts_with_app in E. done.
    + injection Heq as -> ->. by apply (IH eq_refl a b).
Qed.

Lemma find_Some_leftmost old s k :
  find old s = Some k →
  ∃ a b, s = a +:+ old +:+ b ∧ String.length a = k ∧
         ∀ a' b', s = a' +:+ old +:+ b' → k ≤ String.length a'.
Proof.
  revert k. induction s as [|c s IH]; intros k Hf; rewrite find_eq in Hf.
  - destruct (starts_with old EmptyString) eqn:E; [| done].
    injection Hf as <-. apply starts_with_inv in E as [b E].
    exists EmptyString, b. repeat split; [done |]. intros; lia.
  - destruct (starts_with old (String c s)) eqn:E.
    + injection Hf as <-. apply starts_with_inv in E as [b E].
      exists EmptyString, b. repeat split; [done |]. intros; lia.
    + destruct (find old s) as [k'|] eqn:Ef; [| done].
      injection Hf as <-.
      destruct (IH k' eq_refl) as (a & b & Hs & Hlen & Hmin).
      exists (String c a), b. repeat split.
      * simpl. by rewrite Hs.
      * simpl. by rewrite Hlen.
      * intros a' b' Heq. destruct a' as [|x a']; simpl in Heq.
        -- rewrite Heq, starts_with_app in E. done.
        -- injection Heq as -> Heq. specialize (Hmin a' b' Heq). simpl. lia.
Qed.

Section EntityId.

(** C6: building the entity id of a device name and taking the device name
    back from it returns the device name, for every instance name and
    every device name (also one that contains name + "_" itself). *)
Theorem entity_id_round_trip (self : Instance) (n device_name : string) :
  name self = VStr n →
  (let* entity_id := create_entity_id self device_name in
   device_name_from_entity_id self entity_id) = Ok device_name.
Proof.
  intros Hn. unfold create_entity_id, device_name_from_entity_id.
  rewrite Hn. simpl. by rewrite replace_first_prefix.
Qed.

(** C7 (amended): an entity id in which name + "_" does not occur at all
    is returned unchanged; otherwise the leftmost occurrence of
    name + "_", wherever it starts, is removed, and only that one; when
    the entity id begins with name + "_" that occurrence is the prefix. *)
Theorem device_name_from_entity_id_leftmost
    (self : Instance) (n entity_id : string) :
  name self = VStr n →
  ((∀ a b, entity_id ≠ a +:+ (n +:+ "_") +:+ b) →
   device_name_from_entity_id self entity_id = Ok entity_id) ∧
  (∀ a b, entity_id = a +:+ (n +:+ "_") +:+ b →
          (∀ a' b', entity_id = a' +:+ (n +:+ "_") +:+ b' →
                    String.length a ≤ String.length a') →
          device_name_from_entity_id self entity_id = Ok (a +:+ b)) ∧
  (∀ b, entity_id = (n +:+ "_") +:+ b →
        device_name_from_entity_id self entity_id = Ok b).
Proof.
  intros Hn. unfold device_name_from_entity_id. rewrite Hn. simpl.
  split; [| split].
  - intros Habs. by rewrite replace_first_absent.
  - intros a b -> Hmin. by rewrite replace_first_leftmost.
  - intros b ->. by rewrite replace_first_prefix.
Qed.

End EntityId.

(** ** Configuration migration *)

Section Migration.

Variable DEVICE_MACRO : string.

Lemma self_update_options_eq (self : Instance) :
  self_update_options DEVICE_MACRO self =
  let* new_topic := migrated_topic DEVICE_MACRO self in
  Ok (<["topic_template" := new_topic]> (migrated_fields self)).
Proof.
  unfold self_update_options, migrated_fields, migrated_topic, dict_get.
  destruct (options (_config_entry self) !! "name") as [n|];
    destruct (options (_config_entry self) !! "qos") as [q|];
    destruct (options (_config_entry self) !! "root_topic") as [[r|r]|];
    destruct (options (_config_entry self) !! "topic") as [[t|t]|];
    try reflexivity.
Qed.

Lemma configured_topic_total (self : Instance) :
  ∃ v, configured_topic DEVICE_MACRO self = Ok v.
Proof.
  unfold configured_topic, get_from_config, dict_get.
  destruct (options (_config_entry self) !! "topic_template"); simpl; eauto.
  destruct (data (_config_entry self) !! "topic_template"); simpl; eauto.
Qed.

Lemma migrated_topic_total (self : Instance) :
  legacy_topics_ok (options (_config_entry self)) = true →
  ∃ v, migrated_topic DEVICE_MACRO self = Ok v.
Proof.
  unfold legacy_topics_ok, migrated_topic.
  destruct (options (_config_entry self) !! "root_topic") as [[r|r]|];
    [simpl; eauto | done |].
  destruct (options (_config_entry self) !! "topic") as [[t|t]|];
    [simpl; eauto | done |].
  intros _. apply configured_topic_total.
Qed.

Lemma self_update_of_options (self : Instance) (new_options : gmap string PyVal) :
  self_update_options DEVICE_MACRO self = Ok new_options →
  ∃ self', self_update DEVICE_MACRO self = Ok self' ∧
           options (_config_entry self') = new_options ∧
           _updating self' = false.
Proof. intros H. unfold self_update. rewrite H. simpl. eauto. Qed.

(** C8: when the old options hold [root_topic] (a string), the migration
    returns, and the new options hold
    [topic_template = root_topic + "/" + DEVICE_MACRO], whatever else the
    old options hold ([topic] included). *)
Theorem self_update_root_topic (self : Instance) (root_topic : string) :
  options (_config_entry self) !! "root_topic" = Some (VStr root_topic) →
  ∃ self', self_update DEVICE_MACRO self = Ok self' ∧
           options (_config_entry self') !! "topic_template"
             = Some (VStr (root_topic +:+ "/" +:+ DEVICE_MACRO)) ∧
           _updating self' = false.
Proof.
  intros Hroot.
  destruct (self_update_of_options self
              (<["topic_template" := VStr (root_topic +:+ "/" +:+ DEVICE_MACRO)]>
                 (migrated_fields self)))
    as (self' & Hup & Hopt & Hflag).
  { rewrite self_update_options_eq. unfold migrated_topic.
    rewrite Hroot. simpl. by rewrite append_assoc. }
  exists self'. split; [done |]. split; [| done].
  rewrite Hopt. apply lookup_insert_eq.
Qed.

Lemma split_has_sep sep s :
  has_char sep s = true → 2 ≤ length (split sep s).
Proof.
  induction s as [|c s IH]; simpl; [done |].
  destruct (decide (c = sep)) as [|Hc].
  - intros _. pose proof (split_length_pos sep s). simpl. lia.
  - intros H. specialize (IH H).
    destruct (split sep s); simpl in *; lia.
Qed.

Lemma join_snoc sep (l : list string) (x : string) :
  l ≠ [] → join sep (l ++ [x]) = (join sep l +:+ sep) +:+ x.
Proof.
  induction l as [|y l IH]; [done |]. intros _.
  destruct l as [|z l].
  - simpl. by rewrite append_assoc.
  - change (join sep ((y :: z :: l) ++ [x]))
      with (y +:+ sep +:+ join sep ((z :: l) ++ [x])).
    rewrite IH by done.
    change (join sep (y :: z :: l)) with (y +:+ sep +:+ join sep (z :: l)).
    by rewrite !append_assoc.
Qed.

(** C9 (amended): when the old options lack [root_topic] and hold [topic],
    a string with at least one '/', the migration returns, and the new
    [topic_template] is that string with its last '/'-delimited segment
    replaced by the placeholder token. *)
Theorem self_update_topic (self : Instance) (t : string) :
  options (_config_entry self) !! "root_topic" = None →
  options (_config_entry self) !! "topic" = Some (VStr t) →
  has_char "/" t = true →
  ∃ self', self_update DEVICE_MACRO self = Ok self' ∧
           options (_config_entry self') !! "topic_template"
             = Some (VStr (replace_last_segment_spec DEVICE_MACRO t)) ∧
           _updating self' = false.
Proof.
  intros Hroot Htopic Hsep.
  destruct (self_update_of_options self
              (<["topic_template" := VStr (replace_last_segment_spec DEVICE_MACRO t)]>
                 (migrated_fields self)))
    as (self' & Hup & Hopt & Hflag).
  { rewrite self_update_options_eq. unfold migrated_topic.
    rewrite Hroot, Htopic. simpl. unfold replace_last_segment_spec.
    rewrite join_snoc; [done |].
    pose proof (split_has_sep _ _ Hsep) as Hlen.
    intros Hnil. apply (f_equal length) in Hnil.
    unfold py_init in Hnil. rewrite length_take in Hnil. simpl in Hnil. lia. }
  exists self'. split; [done |]. split; [| done].
  rewrite Hopt. apply lookup_insert_eq.
Qed.

(** A topic without '/' has a single segment; dropping it leaves the empty
    string, to which "/" and the token are appended. *)
Lemma self_update_topic_single_segment (self : Instance) (t : string) :
  options (_config_entry self) !! "root_topic" = None →
  options (_config_entry self) !! "topic" = Some (VStr t) →
  has_char "/" t = false →
  ∃ self', self_update DEVICE_MACRO self = Ok self' ∧
           options (_config_entry self') !! "topic_template"
             = Some (VStr ("/" +:+ DEVICE_MACRO)).
Proof.
  intros Hroot Htopic Hsep.
  destruct (self_update_of_options self
              (<["topic_template" := VStr ("/" +:+ DEVICE_MACRO)]>
                 (migrated_fields self)))
    as (self' & Hup & Hopt & Hflag).
  { rewrite self_update_options_eq. unfold migrated_topic.
    rewrite Hroot, Htopic. simpl. by rewrite (split_no_char _ _ Hsep). }
  exists self'. split; [done |]. rewrite Hopt. apply lookup_insert_eq.
Qed.

(** C10 (amended): the migration returns whenever the legacy topic fields
    are strings.  It keeps [name] and [qos] when the old options hold
    both.  When either is missing both take their defaults: [qos] is 0
    (also when the old options hold a [qos]) and [name] is the name of the
    session, which is the old options' [name] when they hold one, else
    the [name] of the entry's data, else "SleepAsAndroid". *)
Theorem self_update_name_qos (config_entry : ConfigEntry) :
  legacy_topics_ok (options config_entry) = true →
  ∃ self self',
    init config_entry = Ok self ∧
    self_update DEVICE_MACRO self = Ok self' ∧
    options (_config_entry self') !! "name"
      = Some (match options config_entry !! "name" with
              | Some n => n
              | None => match data config_entry !! "name" with
                        | Some n => n
                        | None => VStr "SleepAsAndroid"
                        end
              end) ∧
    options (_config_entry self') !! "qos"
      = Some (match options config_entry !! "name",
                    options config_entry !! "qos" with
              | Some _, Some q => q
              | _, _ => VInt 0
              end).
Proof.
  intros Hok.
  assert (∃ self, init config_entry = Ok self ∧
                  _config_entry self = config_entry ∧
                  _name self = match options config_entry !! "name" with
                               | Some n => n
                               | None => match data config_entry !! "name" with
                                         | Some n => n
                                         | None => VStr "SleepAsAndroid"
                                         end
                               end) as (self & Hinit & Hce & Hname).
  { unfold init, get_from_config, dict_get.
    destruct (options config_entry !! "name") as [n|]; simpl; [eauto |].
    destruct (data config_entry !! "name") as [n|]; simpl; eauto. }
  destruct (migrated_topic_total self) as [v Hv]; [by rewrite Hce |].
  destruct (self_update_of_options self
              (<["topic_template" := v]> (migrated_fields self)))
    as (self' & Hup & Hopt & Hflag).
  { rewrite self_update_options_eq, Hv. done. }
  exists self, self'. split; [done |]. split; [done |].
  rewrite Hopt, !lookup_insert_ne by done.
  unfold migrated_fields. rewrite Hce, Hname.
  destruct (options config_entry !! "name") as [n|];
    destruct (options config_entry !! "qos") as [q|];
    by rewrite lookup_insert_eq, lookup_insert_ne, lookup_insert_eq.
Qed.

End Migration.

(** ** The sensor registry *)

Section Registry.

Lemma get_sensor_hit (self : Instance) (k : string) (s : Sensor) :
  __sensors self !! k = Some s → get_sensor self k = (s, false, self).
Proof. intros H. unfold get_sensor, dict_get. by rewrite H. Qed.

Lemma get_sensor_miss (self : Instance) (k : string) :
  __sensors self !! k = None →
  get_sensor self k =
    ({| sensor_id := fresh self; sensor_name := k |}, true,
     {| _config_entry := _config_entry self;
        __sensors := <[k := {| sensor_id := fresh self; sensor_name := k |}]>
                       (__sensors self);
        _name := _name self;
        _updating := _updating self;
        fresh := S (fresh self) |}).
Proof. intros H. unfold get_sensor, dict_get. by rewrite H. Qed.

(** After the call the registry holds the returned handle under the name. *)
Lemma get_sensor_registered (self : Instance) (k : string) :
  __sensors (get_sensor self k).2 !! k = Some (get_sensor self k).1.1.
Proof.
  destruct (__sensors self !! k) as [s|] eqn:E.
  - by rewrite (get_sensor_hit _ _ _ E).
  - rewrite (get_sensor_miss _ _ E). simpl. apply lookup_insert_eq.
Qed.

Lemma get_sensor_keeps (self : Instance) (k k' : string) (s : Sensor) :
  __sensors self !! k' = Some s →
  __sensors (get_sensor self k).2 !! k' = Some s.
Proof.
  intros H. destruct (__sensors self !! k) as [s0|] eqn:E.
  - by rewrite (get_sensor_hit _ _ _ E).
  - rewrite (get_sensor_miss _ _ E). simpl.
    rewrite lookup_insert_ne; [done | congruence].
Qed.

Lemma get_sensor_other (self : Instance) (k k' : string) :
  k ≠ k' →
  __sensors (get_sensor self k).2 !! k' = __sensors self !! k'.
Proof.
  intros Hne. destruct (__sensors self !! k) as [s0|] eqn:E.
  - by rewrite (get_sensor_hit _ _ _ E).
  - rewrite (get_sensor_miss _ _ E). simpl. by rewrite lookup_insert_ne.
Qed.

Lemma get_sensor_config (self : Instance) (k : string) :
  _config_entry (get_sensor self k).2 = _config_entry self ∧
  _name (get_sensor self k).2 = _name self.
Proof.
  destruct (__sensors self !! k) as [s0|] eqn:E.
  - by rewrite (get_sensor_hit _ _ _ E).
  - by rewrite (get_sensor_miss _ _ E).
Qed.

Lemma registry_wf_empty (self : Instance) :
  __sensors self = ∅ → registry_wf self.
Proof.
  intros H. split; intros *; rewrite H, lookup_empty; done.
Qed.

Lemma get_sensor_wf (self : Instance) (k : string) :
  registry_wf self → registry_wf (get_sensor self k).2.
Proof.
  intros [Hbound Hinj].
  destruct (__sensors self !! k) as [s0|] eqn:E.
  - by rewrite (get_sensor_hit _ _ _ E).
  - rewrite (get_sensor_miss _ _ E). split; simpl.
    + intros k' s. rewrite lookup_insert. case_decide as Hk.
      * intros [= <-]. simpl. split; [done | lia].
      * intros H. destruct (Hbound _ _ H). split; [done | lia].
    + intros k1 k2 s1 s2. rewrite !lookup_insert.
      case_decide as H1; case_decide as H2.
      * congruence.
      * intros [= <-] H Hid. destruct (Hbound _ _ H). simpl in Hid. lia.
      * intros H [= <-] Hid. destruct (Hbound _ _ H). simpl in Hid. lia.
      * apply Hinj.
Qed.

Lemma get_sensor_name (self : Instance) (k : string) :
  registry_wf self → sensor_name (get_sensor self k).1.1 = k.
Proof.
  intros Hwf. pose proof (get_sensor_wf self k Hwf) as [Hbound _].
  by destruct (Hbound _ _ (get_sensor_registered self k)).
Qed.

Lemma get_sensors_cons (self : Instance) (n : string) (rest : list string) :
  get_sensors self (n :: rest) =
    ((get_sensor self n).1.1 :: (get_sensors (get_sensor self n).2 rest).1,
     (get_sensors (get_sensor self n).2 rest).2).
Proof.
  simpl. destruct (get_sensor self n) as [[s b] self']. simpl.
  by destruct (get_sensors self' rest).
Qed.

Lemma get_sensors_spec (names : list string) (self : Instance) :
  registry_wf self →
  registry_wf (get_sensors self names).2 ∧
  (∀ k s, __sensors self !! k = Some s →
          __sensors (get_sensors self names).2 !! k = Some s) ∧
  Forall2 (λ k s, __sensors (get_sensors self names).2 !! k = Some s)
          names (get_sensors self names).1.
Proof.
  revert self. induction names as [|n rest IH]; intros self Hwf.
  - simpl. split; [done | split; [done | constructor]].
  - rewrite get_sensors_cons. simpl.
    destruct (IH _ (get_sensor_wf self n Hwf)) as (Hwf' & Hkeep & Hall).
    split; [done |]. split.
    + intros k s H. apply Hkeep. by apply get_sensor_keeps.
    + constructor; [| done]. apply Hkeep, get_sensor_registered.
Qed.

Lemma registered_ids_NoDup (self : Instance) (names : list string)
    (handles : list Sensor) :
  registry_wf self →
  Forall2 (λ k s, __sensors self !! k = Some s) names handles →
  NoDup names → NoDup (sensor_id <$> handles).
Proof.
  intros [_ Hinj] Hall. induction Hall as [|k s names handles Hk Hall IH].
  - intros _. constructor.
  - intros Hnd. apply NoDup_cons in Hnd as [Hnotin Hnd].
    simpl. apply NoDup_cons. split; [| by apply IH].
    intros Hin. apply list_elem_of_fmap in Hin as (s' & Hid & Hin).
    apply list_elem_of_lookup in Hin as [i Hi].
    destruct (Forall2_lookup_r _ _ _ _ _ Hall Hi) as (k' & Hk' & Hs').
    apply Hnotin. rewrite (Hinj _ _ _ _ Hk Hs' Hid).
    apply list_elem_of_lookup. eauto.
Qed.

(** C4: a second [get_sensor] with the same name returns the handle of
    the first with the flag false (and changes nothing); [get_sensor]
    called with pairwise distinct names returns handles with pairwise
    distinct identities. *)
Theorem get_sensor_idempotent_distinct
    (self : Instance) (device : string) (names : list string) :
  registry_wf self →
  NoDup names →
  get_sensor (get_sensor self device).2 device
    = ((get_sensor self device).1.1, false, (get_sensor self device).2) ∧
  length (get_sensors self names).1 = length names ∧
  NoDup (sensor_id <$> (get_sensors self names).1).
Proof.
  intros Hwf Hnd. split; [| split].
  - apply get_sensor_hit, get_sensor_registered.
  - destruct (get_sensors_spec names self Hwf) as (_ & _ & Hall).
    symmetry. by apply Forall2_length in Hall.
  - destruct (get_sensors_spec names self Hwf) as (Hwf' & _ & Hall).
    by apply (registered_ids_NoDup _ _ _ Hwf' Hall).
Qed.

End Registry.

(** ** Message dispatch *)

Section Dispatch.

Variable DEVICE_MACRO : string.
Variable process_message : Sensor -> Message -> result unit.

Lemma message_received_eq (self : Instance) (msg : Message) :
  (message_received DEVICE_MACRO process_message self msg).1 =
  match handled_name DEVICE_MACRO self msg with
  | None => (self, [])
  | Some device_name =>
      ((get_sensor self device_name).2,
       (if (get_sensor self device_name).1.2
        then [EvAddEntities [(get_sensor self device_name).1.1]] else [])
       ++ [EvProcessMessage (get_sensor self device_name).1.1 msg])
  end.
Proof.
  unfold message_received, handled_name.
  destruct (device_name_from_topic DEVICE_MACRO self (topic msg)) as [dn|e];
    [| done].
  destruct (create_entity_id self dn) as [eid|e]; [| done].
  by destruct (get_sensor self dn) as [[s b] self'].
Qed.

Lemma deliver_cons (self : Instance) (m : Message) (rest : list Message) :
  deliver DEVICE_MACRO process_message self (m :: rest) =
  let step := (message_received DEVICE_MACRO process_message self m).1 in
  let tail := deliver DEVICE_MACRO process_message step.1 rest in
  (tail.1, step.2 ++ tail.2).
Proof.
  simpl.
  destruct (message_received DEVICE_MACRO process_message self m)
    as [[self' evs] r]. simpl.
  by destruct (deliver DEVICE_MACRO process_message self' rest).
Qed.

Lemma handled_name_config (self self' : Instance) (msg : Message) :
  _config_entry self' = _config_entry self →
  _name self' = _name self →
  handled_name DEVICE_MACRO self' msg = handled_name DEVICE_MACRO self msg.
Proof.
  intros Hce Hn.
  unfold handled_name, device_name_from_topic, device_position_in_topic,
    configured_topic, create_entity_id, name.
  by rewrite Hce, Hn.
Qed.

Lemma messages_for_config (self self' : Instance) (device : string)
    (msgs : list Message) :
  _config_entry self' = _config_entry self →
  _name self' = _name self →
  messages_for DEVICE_MACRO self' device msgs = messages_for DEVICE_MACRO self device msgs.
Proof.
  intros Hce Hn. unfold messages_for.
  induction msgs as [|m msgs IH]; [done |]. simpl.
  by rewrite IH, (handled_name_config _ _ _ Hce Hn).
Qed.

(** Once the sensor of a device is registered, the events about the device
    are the forwarding of its messages to that sensor, and nothing else. *)
Lemma deliver_registered (device : string) (s : Sensor)
    (msgs : list Message) (self : Instance) :
  registry_wf self →
  __sensors self !! device = Some s →
  events_for device (deliver DEVICE_MACRO process_message self msgs).2
    = EvProcessMessage s <$> messages_for DEVICE_MACRO self device msgs.
Proof.
  revert self. induction msgs as [|m msgs IH]; intros self Hwf Hs; [done |].
  rewrite deliver_cons. cbv zeta. rewrite message_received_eq.
  unfold events_for, messages_for in *. simpl.
  destruct (handled_name DEVICE_MACRO self m) as [dn|] eqn:Hdn; simpl.
  - destruct (get_sensor_config self dn) as [Hce Hn].
    pose proof (messages_for_config _ _ device msgs Hce Hn) as Hsame.
    unfold messages_for in Hsame.
    rewrite List.filter_app, (IH _ (get_sensor_wf self dn Hwf)), Hsame.
    2: { by apply get_sensor_keeps. }
    destruct (decide (dn = device)) as [->|Hne].
    + rewrite (get_sensor_hit _ _ _ Hs). simpl.
      destruct Hwf as [Hbound _]. destruct (Hbound _ _ Hs) as [Hname _].
      by rewrite !bool_decide_eq_true_2.
    + pose proof (get_sensor_name self dn Hwf) as Hname.
      rewrite (bool_decide_eq_false_2 (Some dn = Some device)) by congruence.
      destruct ((get_sensor self dn).1.2); simpl;
        rewrite !bool_decide_eq_false_2 by congruence; done.
  - by rewrite (IH _ Hwf Hs).
Qed.

(** C5: for a device whose sensor is not registered yet, the events about
    the device in the delivery of any sequence of messages are: nothing,
    when no message of the sequence is handled for the device; otherwise
    the announcement of one sensor of that name, then the forwarding of
    the first message for the device to that sensor, then the forwarding
    of the later ones -- with no further announcement. *)
Theorem announce_once_before_first_message
    (self : Instance) (msgs : list Message) (device : string) :
  registry_wf self →
  __sensors self !! device = None →
  ∃ s, sensor_name s = device ∧
       events_for device (deliver DEVICE_MACRO process_message self msgs).2
         = match messages_for DEVICE_MACRO self device msgs with
           | [] => []
           | first :: later =>
               EvAddEntities [s] :: EvProcessMessage s first
                 :: (EvProcessMessage s <$> later)
           end.
Proof.
  revert self. induction msgs as [|m msgs IH]; intros self Hwf Hs.
  - exists {| sensor_id := 0; sensor_name := device |}. done.
  - rewrite deliver_cons. cbv zeta. rewrite message_received_eq.
    unfold events_for, messages_for in *. simpl.
    destruct (handled_name DEVICE_MACRO self m) as [dn|] eqn:Hdn; simpl.
    + destruct (get_sensor_config self dn) as [Hce Hn].
      pose proof (messages_for_config _ _ device msgs Hce Hn) as Hsame.
      unfold messages_for in Hsame.
      rewrite List.filter_app.
      destruct (decide (dn = device)) as [->|Hne].
      * pose proof (deliver_registered device _ msgs _
                      (get_sensor_wf self device Hwf)
                      (get_sensor_registered self device)) as Hrest.
        unfold events_for, messages_for in Hrest. rewrite Hrest, Hsame.
        rewrite (get_sensor_miss _ _ Hs). simpl.
        rewrite !bool_decide_eq_true_2 by done. simpl.
        by eexists {| sensor_id := fresh self; sensor_name := device |}.
      * destruct (IH _ (get_sensor_wf self dn Hwf)) as (s & Hname & Hev).
        { by rewrite get_sensor_other. }
        exists s. split; [done |]. rewrite Hev, Hsame.
        pose proof (get_sensor_name self dn Hwf) as Hsn.
        rewrite (bool_decide_eq_false_2 (Some dn = Some device)) by congruence.
        destruct ((get_sensor self dn).1.2); simpl;
          rewrite !bool_decide_eq_false_2 by congruence; done.
    + destruct (IH _ Hwf Hs) as (s & Hname & Hev).
      exists s. by rewrite Hev.
Qed.

End Dispatch.

(** C2: the claim fails on the configured topic "home/state": no segment is
    the placeholder token, and the derived index is 2, not 0. *)
Lemma position_without_placeholder_not_zero :
  Forall (λ p, p ≠ device_macro) (split "/" "home/state") ∧
  device_position_in_topic device_macro (templated "home/state") = Ok 2%Z ∧
  device_position_in_topic device_macro (templated "home/state") ≠ Ok 0%Z ∧
  topic_template device_macro (templated "home/state") = Raise IndexError.
Proof.
  split; [| split; [| split]].
  - repeat constructor; done.
  - reflexivity.
  - vm_compute. discriminate.
  - reflexivity.
Qed.

Lemma position_without_placeholder_witness :
  device_position_in_topic device_macro (templated "home/state")
    = Ok (Z.of_nat (length (split "/" "home/state"))) ∧
  topic_template device_macro (templated "home/state") = Raise IndexError.
Proof.
  apply (position_without_placeholder device_macro
           (templated "home/state") "home/state").
  - reflexivity.
  - repeat constructor; done.
Defined.

Lemma position_and_wildcard_witness :
  device_position_in_topic device_macro (templated "home/{device}/state")
    = Ok 1%Z ∧
  topic_template device_macro (templated "home/{device}/state")
    = Ok "home/+/state".
Proof.
  destruct (position_and_wildcard_of_placeholder device_macro
              (templated "home/{device}/state") "home/{device}/state" 1)
    as (Hpos & (w & Hw & Hweq & _) & _).
  - reflexivity.
  - reflexivity.
  - intros j Hj. assert (j = 0) as -> by lia. done.
  - split; [exact Hpos |]. rewrite Hw, Hweq. reflexivity.
Defined.

Lemma get_sensor_idempotent_distinct_witness :
  get_sensor (get_sensor (session_with ∅) "phone1").2 "phone1"
    = ((get_sensor (session_with ∅) "phone1").1.1, false,
       (get_sensor (session_with ∅) "phone1").2) ∧
  length (get_sensors (session_with ∅) ["phone1"; "phone2"; "tablet"]).1 = 3 ∧
  NoDup (sensor_id <$>
           (get_sensors (session_with ∅) ["phone1"; "phone2"; "tablet"]).1).
Proof.
  apply (get_sensor_idempotent_distinct (session_with ∅) "phone1"
           ["phone1"; "phone2"; "tablet"]).
  - apply registry_wf_empty. reflexivity.
  - apply (bool_decide_unpack _). vm_compute. exact I.
Defined.

Lemma announce_once_witness :
  ∃ s, sensor_name s = "phone1" ∧
       events_for "phone1"
         (deliver device_macro always_ok (templated "home/{device}/state")
                  [phone1_state; phone1_again]).2
       = [EvAddEntities [s]; EvProcessMessage s phone1_state;
          EvProcessMessage s phone1_again].
Proof.
  apply (announce_once_before_first_message device_macro always_ok
           (templated "home/{device}/state") [phone1_state; phone1_again]
           "phone1").
  - apply registry_wf_empty. reflexivity.
  - reflexivity.
Defined.

Lemma entity_id_round_trip_witness :
  (let* entity_id := create_entity_id (session_with ∅) "SleepAsAndroid_x" in
   device_name_from_entity_id (session_with ∅) entity_id)
  = Ok "SleepAsAndroid_x".
Proof.
  apply (entity_id_round_trip (session_with ∅) "SleepAsAndroid"
           "SleepAsAndroid_x").
  reflexivity.
Defined.

(** C7: the claim fails on the entity id "my_SleepAsAndroid_phone" of a
    session named "SleepAsAndroid": it does not begin with
    "SleepAsAndroid_", and yet it is not returned unchanged. *)
Lemma device_name_from_entity_id_inner_occurrence :
  name (session_with ∅) = VStr "SleepAsAndroid" ∧
  starts_with "SleepAsAndroid_" "my_SleepAsAndroid_phone" = false ∧
  device_name_from_entity_id (session_with ∅) "my_SleepAsAndroid_phone"
    = Ok "my_phone" ∧
  device_name_from_entity_id (session_with ∅) "my_SleepAsAndroid_phone"
    ≠ Ok "my_SleepAsAndroid_phone".
Proof.
  split; [reflexivity |]. split; [reflexivity |]. split; [reflexivity |].
  vm_compute. discriminate.
Qed.

Lemma device_name_from_entity_id_leftmost_witness :
  device_name_from_entity_id (session_with ∅) "phone" = Ok "phone" ∧
  device_name_from_entity_id (session_with ∅) "my_SleepAsAndroid_phone"
    = Ok "my_phone" ∧
  device_name_from_entity_id (session_with ∅) "SleepAsAndroid_phone"
    = Ok "phone".
Proof.
  split; [| split].
  - destruct (device_name_from_entity_id_leftmost (session_with ∅)
                "SleepAsAndroid" "phone" eq_refl) as (Habsent & _ & _).
    apply Habsent. apply find_None_absent. reflexivity.
  - destruct (device_name_from_entity_id_leftmost (session_with ∅)
                "SleepAsAndroid" "my_SleepAsAndroid_phone" eq_refl)
      as (_ & Hleft & _).
    apply (Hleft "my_" "phone"); [reflexivity |].
    destruct (find_Some_leftmost "SleepAsAndroid_" "my_SleepAsAndroid_phone" 3
                eq_refl) as (_ & _ & _ & _ & Hmin).
    exact Hmin.
  - destruct (device_name_from_entity_id_leftmost (session_with ∅)
                "SleepAsAndroid" "SleepAsAndroid_phone" eq_refl)
      as (_ & _ & Hprefix).
    apply (Hprefix "phone"). reflexivity.
Defined.

Lemma self_update_root_topic_witness :
  ∃ self',
    self_update device_macro
      (session_with {[ "root_topic" := VStr "home"; "name" := VStr "bed";
                       "topic" := VStr "old/topic/state" ]}) = Ok self' ∧
    options (_config_entry self') !! "topic_template"
      = Some (VStr "home/{device}") ∧
    _updating self' = false.
Proof.
  apply (self_update_root_topic device_macro
           (session_with {[ "root_topic" := VStr "home"; "name" := VStr "bed";
                            "topic" := VStr "old/topic/state" ]}) "home").
  reflexivity.
Defined.

(** C9: the claim fails on the legacy topic "SleepAsAndroid", which has a
    single segment: replacing that segment by the token gives "{device}",
    the migration gives "/{device}". *)
Lemma self_update_topic_single_segment_differs :
  options (_config_entry (session_with {[ "topic" := VStr "SleepAsAndroid" ]}))
    !! "root_topic" = None ∧
  replace_last_segment_spec device_macro "SleepAsAndroid" = "{device}" ∧
  (let* self' := self_update device_macro
                   (session_with {[ "topic" := VStr "SleepAsAndroid" ]}) in
   Ok (options (_config_entry self') !! "topic_template"))
  = Ok (Some (VStr "/{device}")).
Proof. repeat split; reflexivity. Qed.

Lemma self_update_topic_witness :
  ∃ self',
    self_update device_macro
      (session_with {[ "topic" := VStr "home/bedroom/state" ]}) = Ok self' ∧
    options (_config_entry self') !! "topic_template"
      = Some (VStr "home/bedroom/{device}") ∧
    _updating self' = false.
Proof.
  apply (self_update_topic device_macro
           (session_with {[ "topic" := VStr "home/bedroom/state" ]})
           "home/bedroom/state"); reflexivity.
Defined.

(** C10: the claim fails on old options that hold [qos] = 2 and no [name]:
    the new options hold [qos] = 0. *)
Lemma self_update_drops_qos_without_name :
  entry_with {[ "qos" := VInt 2 ]} = {| options := {[ "qos" := VInt 2 ]};
                                         data := ∅ |} ∧
  (let* self := init (entry_with {[ "qos" := VInt 2 ]}) in
   let* self' := self_update device_macro self in
   Ok (options (_config_entry self') !! "qos"))
  = Ok (Some (VInt 0)).
Proof. split; reflexivity. Qed.

Lemma self_update_name_qos_witness :
  ∃ self self',
    init (entry_with {[ "name" := VStr "bed" ]}) = Ok self ∧
    self_update device_macro self = Ok self' ∧
    options (_config_entry self') !! "name" = Some (VStr "bed") ∧
    options (_config_entry self') !! "qos" = Some (VInt 0).
Proof.
  exact (self_update_name_qos device_macro
           (entry_with {[ "name" := VStr "bed" ]}) eq_refl).
Defined.

(** * Further properties of the code *)

(** ** The configured topic, the position and the extraction *)

Section TopicResolution.

Variable DEVICE_MACRO : string.

(** X1: reading the configured topic never raises: it is the
    [topic_template] of the options when they hold one, else the one of the
    entry's data, else "SleepAsAndroid/" followed by the token. *)
Theorem configured_topic_resolution (self : Instance) :
  configured_topic DEVICE_MACRO self =
  Ok (match options (_config_entry self) !! "topic_template" with
      | Some v => v
      | None =>
          match data (_config_entry self) !! "topic_template" with
          | Some v => v
          | None => VStr ("SleepAsAndroid/" +:+ DEVICE_MACRO)
          end
      end).
Proof.
  unfold configured_topic, get_from_config, dict_get.
  destruct (options (_config_entry self) !! "topic_template"); simpl; [done |].
  by destruct (data (_config_entry self) !! "topic_template").
Qed.

Lemma position_loop_spec (parts : list string) (acc : Z) :
  ∃ p : nat,
    position_loop DEVICE_MACRO parts acc = (acc + Z.of_nat p)%Z ∧
    p ≤ length parts ∧
    (∀ j, j < p → parts !! j ≠ Some DEVICE_MACRO) ∧
    (p < length parts → parts !! p = Some DEVICE_MACRO).
Proof.
  revert acc. induction parts as [|x rest IH]; intros acc.
  - exists 0. simpl. split; [lia |]. split; [lia |]. split; intros; lia.
  - simpl. destruct (decide (x = DEVICE_MACRO)) as [->|Hx].
    + exists 0. split; [lia |]. split; [lia |]. split; [intros; lia | done].
    + destruct (IH (acc + 1)%Z) as (p & Heq & Hle & Hbefore & Hat).
      exists (S p). split; [rewrite Heq; lia |]. split; [lia |]. split.
      * intros [|j] Hj; simpl; [congruence | apply Hbefore; lia].
      * intros Hlt. simpl. apply Hat. lia.
Qed.

(** X2: the derived position is never negative and never more than the
    number of segments of the configured topic; no segment before it is the
    token; it is less than the number of segments exactly when some segment
    is the token, and then the segment at the position is the token. *)
Theorem device_position_bounds (self : Instance) (t : string) :
  configured_topic DEVICE_MACRO self = Ok (VStr t) →
  ∃ p : nat,
    device_position_in_topic DEVICE_MACRO self = Ok (Z.of_nat p) ∧
    p ≤ length (split "/" t) ∧
    (∀ j, j < p → split "/" t !! j ≠ Some DEVICE_MACRO) ∧
    (p < length (split "/" t) ↔ DEVICE_MACRO ∈ split "/" t) ∧
    (p < length (split "/" t) → split "/" t !! p = Some DEVICE_MACRO).
Proof.
  intros Ht.
  destruct (position_loop_spec (split "/" t) 0) as (p & Heq & Hle & Hbefore & Hat).
  exists p. split; [| split; [done | split; [done | split; [| done]]]].
  - unfold device_position_in_topic. rewrite Ht. simpl. rewrite Heq.
    f_equal; lia.
  - split.
    + intros Hlt. apply list_elem_of_lookup. eauto.
    + intros Hin. apply list_elem_of_lookup in Hin as [j Hj].
      destruct (decide (p < length (split "/" t))) as [|Hge]; [done |].
      exfalso. apply (Hbefore j); [| done].
      apply lookup_lt_Some in Hj. lia.
Qed.

(** X5: a negative position counts from the end of the topic: [-k] gives
    the k-th segment from the end while the topic has k segments, and raises
    IndexError when it has fewer. *)
Theorem device_name_negative_position (raw_topic : string) (k : nat) :
  0 < k →
  (k ≤ length (split "/" raw_topic) →
   ∃ seg, split "/" raw_topic !! (length (split "/" raw_topic) - k) = Some seg ∧
          device_name_from_topic_and_position raw_topic (- Z.of_nat k)
            = Ok seg) ∧
  (length (split "/" raw_topic) < k →
   device_name_from_topic_and_position raw_topic (- Z.of_nat k)
     = Raise IndexError).
Proof.
  intros Hk. unfold device_name_from_topic_and_position, py_index.
  set (l := split "/" raw_topic).
  destruct (Z.ltb_spec (- Z.of_nat k) 0) as [_|]; [| lia].
  split.
  - intros Hle.
    destruct (lookup_lt_is_Some_2 l (length l - k)) as [seg Hseg]; [lia |].
    exists seg. split; [done |].
    destruct (Z.leb_spec 0 (Z.of_nat (length l) + - Z.of_nat k)); [| lia].
    destruct (Z.ltb_spec (Z.of_nat (length l) + - Z.of_nat k)
                         (Z.of_nat (length l))); [| lia].
    simpl.
    replace (Z.to_nat (Z.of_nat (length l) + - Z.of_nat k))
      with (length l - k) by lia.
    by rewrite Hseg.
  - intros Hlt.
    destruct (Z.leb_spec 0 (Z.of_nat (length l) + - Z.of_nat k)); [lia |].
    done.
Qed.

(** X6: a topic built from the configured topic by putting a device name
    (without '/') in the place of the token gives that device name back. *)
Theorem device_name_of_templated_topic
    (self : Instance) (t : string) (i : nat) (device : string) :
  configured_topic DEVICE_MACRO self = Ok (VStr t) →
  split "/" t !! i = Some DEVICE_MACRO →
  (∀ j, j < i → split "/" t !! j ≠ Some DEVICE_MACRO) →
  has_char "/" device = false →
  device_name_from_topic DEVICE_MACRO self
    (join "/" (<[i := device]> (split "/" t))) = Ok device.
Proof.
  intros Ht Hi Hfirst Hdev.
  pose proof (lookup_lt_Some _ _ _ Hi) as Hlt.
  unfold device_name_from_topic, device_position_in_topic.
  rewrite Ht. simpl. rewrite (position_loop_first _ _ _ _ Hi Hfirst). simpl.
  unfold device_name_from_topic_and_position.
  rewrite split_join.
  - rewrite (py_index_in_range _ i device); [done |].
    by apply list_lookup_insert_eq.
  - intros Hnil. apply (f_equal length) in Hnil.
    rewrite length_insert in Hnil. simpl in Hnil. lia.
  - apply Forall_insert; [apply split_elems | done].
Qed.

End TopicResolution.

(** ** The message callback and the registry *)

Section DispatchMore.

Variable DEVICE_MACRO : string.
Variable process_message : Sensor -> Message -> result unit.

Lemma handled_name_Some (self : Instance) (msg : Message) (device : string) :
  handled_name DEVICE_MACRO self msg = Some device →
  device_name_from_topic DEVICE_MACRO self (topic msg) = Ok device ∧
  ∃ entity_id, create_entity_id self device = Ok entity_id.
Proof.
  unfold handled_name.
  destruct (device_name_from_topic DEVICE_MACRO self (topic msg)) as [dn|];
    [| done].
  destruct (create_entity_id self dn) as [eid|] eqn:E; [| done].
  intros [= <-]. eauto.
Qed.

(** X7: a message whose topic has no segment at the derived position is not
    handled: the callback raises IndexError, calls neither the
    entity-creation callback nor a sensor, and leaves the instance as it
    was. *)
Theorem message_received_short_topic
    (self : Instance) (msg : Message) (p : nat) :
  device_position_in_topic DEVICE_MACRO self = Ok (Z.of_nat p) →
  length (split "/" (topic msg)) ≤ p →
  message_received DEVICE_MACRO process_message self msg
    = (self, [], Raise IndexError).
Proof.
  intros Hpos Hlen.
  unfold message_received, device_name_from_topic. rewrite Hpos. simpl.
  unfold device_name_from_topic_and_position.
  by rewrite (py_index_past_end _ _ Hlen).
Qed.

(** X8: when a message is handled for a device, the sensor the callback
    used is registered under the device name afterwards, whatever the
    sensor does with the message; the callback returns normally when the
    sensor returns or raises NoEntitySpecifiedError, and lets every other
    exception of the sensor escape. *)
Theorem message_received_outcome
    (self : Instance) (msg : Message) (device : string) :
  handled_name DEVICE_MACRO self msg = Some device →
  __sensors (message_received DEVICE_MACRO process_message self msg).1.1
    !! device = Some (get_sensor self device).1.1 ∧
  (message_received DEVICE_MACRO process_message self msg).2
    = match process_message (get_sensor self device).1.1 msg with
      | Ok _ => Ok tt
      | Raise e => if decide (e = NoEntitySpecifiedError) then Ok tt
                   else Raise e
      end.
Proof.
  intros Hh. destruct (handled_name_Some _ _ _ Hh) as (Hdn & eid & Hid).
  pose proof (get_sensor_registered self device) as Hreg.
  unfold message_received. rewrite Hdn, Hid.
  destruct (get_sensor self device) as [[s b] self']. simpl in *.
  split; [done |]. unfold try_except.
  by destruct (process_message s msg) as [[]|e].
Qed.

Lemma get_sensor_dom (self : Instance) (k : string) :
  dom (__sensors (get_sensor self k).2) = {[k]} ∪ dom (__sensors self).
Proof.
  destruct (__sensors self !! k) as [s|] eqn:E.
  - rewrite (get_sensor_hit _ _ _ E). simpl.
    assert (k ∈ dom (__sensors self)) as Hin by (apply elem_of_dom; eauto).
    symmetry. apply subseteq_union_1_L. by apply singleton_subseteq_l.
  - rewrite (get_sensor_miss _ _ E). simpl. by rewrite dom_insert_L.
Qed.

Lemma get_sensor_flag (self : Instance) (k : string) :
  _updating (get_sensor self k).2 = _updating self.
Proof.
  destruct (__sensors self !! k) as [s|] eqn:E.
  - by rewrite (get_sensor_hit _ _ _ E).
  - by rewrite (get_sensor_miss _ _ E).
Qed.

Lemma handled_names_config (self self' : Instance) (msgs : list Message) :
  _config_entry self' = _config_entry self →
  _name self' = _name self →
  handled_names DEVICE_MACRO self' msgs = handled_names DEVICE_MACRO self msgs.
Proof.
  intros Hce Hn. unfold handled_names.
  induction msgs as [|m msgs IH]; [done |].
  change (omap (handled_name DEVICE_MACRO self') (m :: msgs))
    with (match handled_name DEVICE_MACRO self' m with
          | Some d => d :: omap (handled_name DEVICE_MACRO self') msgs
          | None => omap (handled_name DEVICE_MACRO self') msgs
          end).
  by rewrite IH, (handled_name_config _ _ _ _ Hce Hn).
Qed.

(** X9: delivering messages only adds to the registry.  Afterwards the
    registered names are those registered before together with the device
    names of the handled messages; every sensor registered before is still
    registered, with the same handle; the registry is still well formed;
    the configuration, the name and the migration flag are untouched. *)
Theorem deliver_registry (msgs : list Message) (self : Instance) :
  registry_wf self →
  registry_wf (deliver DEVICE_MACRO process_message self msgs).1 ∧
  dom (__sensors (deliver DEVICE_MACRO process_message self msgs).1)
    = dom (__sensors self)
      ∪ list_to_set (handled_names DEVICE_MACRO self msgs) ∧
  (∀ k s, __sensors self !! k = Some s →
          __sensors (deliver DEVICE_MACRO process_message self msgs).1 !! k
            = Some s) ∧
  _config_entry (deliver DEVICE_MACRO process_message self msgs).1
    = _config_entry self ∧
  _name (deliver DEVICE_MACRO process_message self msgs).1 = _name self ∧
  _updating (deliver DEVICE_MACRO process_message self msgs).1
    = _updating self.
Proof.
  revert self. induction msgs as [|m msgs IH]; intros self Hwf.
  - simpl. split; [done |]. split; [by rewrite union_empty_r_L |]. done.
  - rewrite deliver_cons. cbv zeta. rewrite message_received_eq. simpl.
    unfold handled_names. simpl. fold (handled_names DEVICE_MACRO self msgs).
    destruct (handled_name DEVICE_MACRO self m) as [dn|] eqn:Hdn; simpl.
    + destruct (get_sensor_config self dn) as [Hce Hn].
      destruct (IH _ (get_sensor_wf self dn Hwf))
        as (Hwf' & Hdom & Hkeep & Hce' & Hn' & Hup').
      split; [done |]. split; [| split; [| split; [| split]]].
      * rewrite Hdom, get_sensor_dom,
          (handled_names_config _ _ msgs Hce Hn).
        by rewrite (comm_L (∪) {[dn]}), <- (assoc_L (∪)).
      * intros k s Hk. apply Hkeep. by apply get_sensor_keeps.
      * by rewrite Hce'.
      * by rewrite Hn'.
      * by rewrite Hup', get_sensor_flag.
    + apply (IH _ Hwf).
Qed.

Lemma count_announcements_app (evs evs' : list Event) :
  count_announcements (evs ++ evs')
    = count_announcements evs + count_announcements evs'.
Proof.
  unfold count_announcements. by rewrite List.filter_app, length_app.
Qed.

(** X10: the entity-creation callback is called once for every sensor that
    is added to the registry, and never otherwise: the registry grows by
    the number of announcements in the trace. *)
Theorem announcements_match_new_sensors
    (msgs : list Message) (self : Instance) :
  size (__sensors (deliver DEVICE_MACRO process_message self msgs).1)
    = size (__sensors self)
      + count_announcements
          (deliver DEVICE_MACRO process_message self msgs).2.
Proof.
  revert self. induction msgs as [|m msgs IH]; intros self.
  - simpl. unfold count_announcements. simpl. lia.
  - rewrite deliver_cons. cbv zeta. rewrite message_received_eq. simpl.
    destruct (handled_name DEVICE_MACRO self m) as [dn|] eqn:Hdn; simpl.
    + rewrite IH, !count_announcements_app.
      destruct (__sensors self !! dn) as [s|] eqn:E.
      * rewrite (get_sensor_hit _ _ _ E). simpl.
        unfold count_announcements. simpl. lia.
      * rewrite (get_sensor_miss _ _ E). simpl.
        rewrite (map_size_insert_None _ _ _ E).
        unfold count_announcements. simpl. lia.
    + rewrite IH. unfold count_announcements. simpl. lia.
Qed.

End DispatchMore.

(** ** Entity identifiers of distinct devices *)

Section EntityIdMore.

(** X11: two device names with the same entity id are the same device
    name: distinct devices of a session never share an entity id. *)
Theorem create_entity_id_inj
    (self : Instance) (device1 device2 entity_id : string) :
  create_entity_id self device1 = Ok entity_id →
  create_entity_id self device2 = Ok entity_id →
  device1 = device2.
Proof.
  unfold create_entity_id.
  destruct (py_add_str (name self) "_") as [prefix|]; simpl; [| done].
  intros [= H1] [= H2]. rewrite <- H2 in H1.
  by apply (inj (String.append prefix)) in H1.
Qed.

End EntityIdMore.

(** ** What the migration writes, and what follows it *)

Section MigrationMore.

Variable DEVICE_MACRO : string.

Lemma migrated_fields_dom (self : Instance) :
  dom (migrated_fields self) = {[ "name"; "qos" ]}.
Proof.
  unfold migrated_fields.
  destruct (options (_config_entry self) !! "name");
    destruct (options (_config_entry self) !! "qos");
    rewrite !dom_insert_L, dom_empty_L; set_solver.
Qed.

Lemma migrated_fields_name (config_entry : ConfigEntry) (self : Instance) :
  init config_entry = Ok self →
  _config_entry self = config_entry ∧
  migrated_fields self !! "name" = Some (_name self).
Proof.
  unfold init, get_from_config, dict_get, migrated_fields.
  destruct (options config_entry !! "name") as [n|] eqn:En; simpl.
  - intros [= <-]. simpl. split; [done |]. rewrite En.
    destruct (options config_entry !! "qos");
      by rewrite lookup_insert_ne, lookup_insert_eq.
  - destruct (data config_entry !! "name") as [n|]; simpl;
      intros [= <-]; simpl; split; try done; rewrite En;
      by rewrite lookup_insert_ne, lookup_insert_eq.
Qed.

(** X12: whenever the legacy topic fields are strings the migration
    returns, and the new options hold the keys [name], [qos] and
    [topic_template] and no other: the legacy fields are not carried over.
    The entry's data, the registry and the session name are untouched, and
    the migration flag is cleared. *)
Theorem self_update_keys (self : Instance) :
  legacy_topics_ok (options (_config_entry self)) = true →
  ∃ self', self_update DEVICE_MACRO self = Ok self' ∧
           dom (options (_config_entry self'))
             = {[ "name"; "qos"; "topic_template" ]} ∧
           data (_config_entry self') = data (_config_entry self) ∧
           __sensors self' = __sensors self ∧
           _name self' = _name self ∧
           _updating self' = false.
Proof.
  intros Hok. destruct (migrated_topic_total DEVICE_MACRO self Hok) as [v Hv].
  unfold self_update. rewrite self_update_options_eq, Hv. simpl.
  eexists. split; [done |]. simpl.
  rewrite dom_insert_L, migrated_fields_dom.
  split; [set_solver | done].
Qed.

(** X13: the migration is needed exactly when the options hold no
    [topic_template]; once it has run, a session constructed from the
    updated entry does not need it, and has the name of the session that
    ran it. *)
Theorem migration_runs_once (config_entry : ConfigEntry) :
  legacy_topics_ok (options config_entry) = true →
  ∃ self self' again,
    init config_entry = Ok self ∧
    (_updating self = true ↔ options config_entry !! "topic_template" = None) ∧
    self_update DEVICE_MACRO self = Ok self' ∧
    init (_config_entry self') = Ok again ∧
    _updating again = false ∧
    _name again = _name self.
Proof.
  intros Hok.
  assert (∃ self, init config_entry = Ok self ∧
                  (_updating self = true
                   ↔ options config_entry !! "topic_template" = None))
    as (self & Hinit & Hflag).
  { unfold init, get_from_config, dict_get.
    destruct (options config_entry !! "name") as [n|]; simpl;
      [| destruct (data config_entry !! "name") as [n|]; simpl];
      (eexists; split; [done |]; simpl;
       destruct (options config_entry !! "topic_template"); done). }
  destruct (migrated_fields_name _ _ Hinit) as [Hce Hname].
  destruct (migrated_topic_total DEVICE_MACRO self) as [v Hv];
    [by rewrite Hce |].
  exists self. unfold self_update.
  rewrite self_update_options_eq, Hv. simpl.
  eexists. eexists. split; [done |]. split; [done |]. split; [done |].
  unfold init, get_from_config, dict_get. simpl.
  rewrite lookup_insert_ne, Hname, lookup_insert_eq by done. simpl.
  split; [done |]. done.
Qed.

(** X14: without [root_topic] and [topic] in the old options the migration
    writes the configured topic: the [topic_template] of the options, else
    the one of the entry's data, else "SleepAsAndroid/" and the token. *)
Theorem self_update_without_legacy_topic (self : Instance) :
  options (_config_entry self) !! "root_topic" = None →
  options (_config_entry self) !! "topic" = None →
  ∃ self',
    self_update DEVICE_MACRO self = Ok self' ∧
    options (_config_entry self') !! "topic_template"
      = Some (match options (_config_entry self) !! "topic_template" with
              | Some v => v
              | None =>
                  match data (_config_entry self) !! "topic_template" with
                  | Some v => v
                  | None => VStr ("SleepAsAndroid/" +:+ DEVICE_MACRO)
                  end
              end).
Proof.
  intros Hroot Htopic. unfold self_update.
  rewrite self_update_options_eq. unfold migrated_topic.
  rewrite Hroot, Htopic.
  unfold configured_topic, get_from_config, dict_get.
  destruct (options (_config_entry self) !! "topic_template"); simpl.
  - eexists. split; [done |]. simpl. apply lookup_insert_eq.
  - destruct (data (_config_entry self) !! "topic_template"); simpl;
      (eexists; split; [done |]; simpl; apply lookup_insert_eq).
Qed.

(** X15: a migration from [root_topic] gives a topic the session can
    subscribe to.  When no segment of [root_topic] is the token and the
    token holds no '/', the position derived from the migrated entry is the
    number of segments of [root_topic], the wildcard topic is [root_topic]
    followed by "/+", and a topic made of [root_topic], "/" and a device
    name gives the device name. *)
Theorem self_update_root_topic_subscribable
    (self : Instance) (root_topic device : string) :
  options (_config_entry self) !! "root_topic" = Some (VStr root_topic) →
  Forall (λ p, p ≠ DEVICE_MACRO) (split "/" root_topic) →
  has_char "/" DEVICE_MACRO = false →
  has_char "/" device = false →
  ∃ self',
    self_update DEVICE_MACRO self = Ok self' ∧
    device_position_in_topic DEVICE_MACRO self'
      = Ok (Z.of_nat (length (split "/" root_topic))) ∧
    topic_template DEVICE_MACRO self' = Ok (root_topic +:+ "/+") ∧
    device_name_from_topic DEVICE_MACRO self' (root_topic +:+ "/" +:+ device)
      = Ok device.
Proof.
  intros Hroot Habs Hmacro Hdev. unfold self_update.
  rewrite self_update_options_eq. unfold migrated_topic. rewrite Hroot. simpl.
  eexists. split; [done |].
  set (l := split "/" root_topic) in *.
  assert (l ≠ []) as Hne by apply split_not_nil.
  assert (∀ x, has_char "/" x = false →
               split "/" ((root_topic +:+ "/") +:+ x) = l ++ [x]) as Hsplit.
  { intros x Hx. rewrite append_assoc.
    change (root_topic +:+ "/" +:+ x) with (root_topic +:+ String "/" x).
    by rewrite split_app_sep, (split_no_char _ _ Hx). }
  assert (position_loop DEVICE_MACRO (l ++ [DEVICE_MACRO]) 0
          = Z.of_nat (length l)) as Hloop.
  { rewrite (position_loop_first _ _ (length l)); [lia | |].
    - by rewrite lookup_app_r, Nat.sub_diag by lia.
    - intros j Hj Hlook. rewrite lookup_app_l in Hlook by done.
      rewrite Forall_forall in Habs.
      apply (Habs DEVICE_MACRO); [| done].
      apply list_elem_of_lookup. eauto. }
  assert (∀ s, device_position_in_topic DEVICE_MACRO
                 {| _config_entry :=
                      {| options := <["topic_template" :=
                                        VStr ((root_topic +:+ "/") +:+ DEVICE_MACRO)]>
                                      (migrated_fields self);
                         data := data (_config_entry self) |};
                    __sensors := s; _name := _name self;
                    _updating := false; fresh := fresh self |}
               = Ok (Z.of_nat (length l))) as Hpos.
  { intros s. unfold device_position_in_topic, configured_topic,
      get_from_config, dict_get. simpl.
    rewrite lookup_insert_eq. simpl. by rewrite (Hsplit _ Hmacro), Hloop. }
  split; [apply Hpos |]. split.
  - unfold topic_template. rewrite Hpos.
    unfold configured_topic, get_from_config, dict_get. simpl.
    rewrite lookup_insert_eq. simpl. rewrite (Hsplit _ Hmacro).
    rewrite py_setitem_in_range by (rewrite length_app; simpl; lia).
    simpl. rewrite insert_app_r_alt, Nat.sub_diag by lia. simpl.
    rewrite join_snoc by done. unfold l.
    by rewrite join_split, append_assoc.
  - assert (split "/" (root_topic +:+ String "/" device) = l ++ [device]) as Hd.
    { by rewrite split_app_sep, (split_no_char _ _ Hdev). }
    unfold device_name_from_topic. rewrite Hpos. unfold bind.
    unfold device_name_from_topic_and_position. rewrite Hd.
    rewrite (py_index_in_range _ _ device); [done |].
    by rewrite lookup_app_r, Nat.sub_diag by lia.
Qed.

End MigrationMore.

(** ** Setting up an entry and subscribing *)

Section SetupMore.

Variable DEVICE_MACRO : string.


(** X17: when the wildcard topic can be derived, the subscription asks for
    it with the [qos] of the entry's data; a [qos] in the options is not
    looked at, and without a [qos] in the data subscribing raises
    KeyError. *)
Theorem subscribe_request_qos (self : Instance) (wildcard : string) :
  topic_template DEVICE_MACRO self = Ok wildcard →
  subscribe_request DEVICE_MACRO self
    = match data (_config_entry self) !! "qos" with
      | Some qos => Ok (wildcard, qos)
      | None => Raise KeyError
      end.
Proof.
  intros Hw. unfold subscribe_request. rewrite Hw. simpl.
  unfold topic_template in Hw.
  destruct (configured_topic DEVICE_MACRO self) as [v|]; [| done]. simpl.
  unfold dict_get. by destruct (data (_config_entry self) !! "qos").
Qed.

(** X18: when the configured topic holds no segment equal to the token, no
    subscription is asked for: subscribing raises IndexError. *)
Theorem subscribe_request_without_placeholder (self : Instance) (t : string) :
  configured_topic DEVICE_MACRO self = Ok (VStr t) →
  Forall (λ p, p ≠ DEVICE_MACRO) (split "/" t) →
  subscribe_request DEVICE_MACRO self = Raise IndexError.
Proof.
  intros Ht Habs.
  assert (device_position_in_topic DEVICE_MACRO self
          = Ok (Z.of_nat (length (split "/" t)))) as Hpos.
  { unfold device_position_in_topic. rewrite Ht. simpl.
    by rewrite (position_loop_absent _ _ _ Habs). }
  unfold subscribe_request, topic_template.
  rewrite Ht. simpl. rewrite Hpos. simpl.
  by rewrite py_setitem_past_end.
Qed.

End SetupMore.

(** ** The further properties on concrete sessions *)

Lemma device_position_bounds_witness :
  ∃ p : nat,
    device_position_in_topic device_macro (templated "home/{device}/state")
      = Ok (Z.of_nat p) ∧
    p ≤ length (split "/" "home/{device}/state") ∧
    (∀ j, j < p → split "/" "home/{device}/state" !! j ≠ Some device_macro) ∧
    (p < length (split "/" "home/{device}/state")
     ↔ device_macro ∈ split "/" "home/{device}/state") ∧
    (p < length (split "/" "home/{device}/state") →
     split "/" "home/{device}/state" !! p = Some device_macro).
Proof.
  exact (device_position_bounds device_macro (templated "home/{device}/state")
           "home/{device}/state" eq_refl).
Defined.

Lemma device_name_segment_witness :
  device_name_from_topic_and_position "home/phone1/state" 1 = Ok "phone1".
Proof.
  exact (device_name_segment "home/phone1/state" 1 "phone1" eq_refl).
Defined.

Lemma device_name_past_end_witness :
  device_name_from_topic_and_position "home/phone1" 5 = Raise IndexError.
Proof.
  apply (device_name_past_end "home/phone1" 5). simpl. lia.
Defined.

Lemma device_name_negative_position_witness :
  (1 ≤ length (split "/" "home/phone1/state") →
   ∃ seg, split "/" "home/phone1/state"
            !! (length (split "/" "home/phone1/state") - 1) = Some seg ∧
          device_name_from_topic_and_position "home/phone1/state" (-1)
            = Ok seg) ∧
  (length (split "/" "home/phone1/state") < 1 →
   device_name_from_topic_and_position "home/phone1/state" (-1)
     = Raise IndexError).
Proof.
  apply (device_name_negative_position "home/phone1/state" 1). lia.
Defined.

Lemma device_name_of_templated_topic_witness :
  device_name_from_topic device_macro (templated "home/{device}/state")
    "home/phone1/state" = Ok "phone1".
Proof.
  apply (device_name_of_templated_topic device_macro
           (templated "home/{device}/state") "home/{device}/state" 1 "phone1").
  - reflexivity.
  - reflexivity.
  - intros j Hj. assert (j = 0) as -> by lia. done.
  - reflexivity.
Defined.

Lemma message_received_short_topic_witness :
  message_received device_macro always_ok (templated "home/{device}/state")
    short_topic_message
  = (templated "home/{device}/state", [], Raise IndexError).
Proof.
  apply (message_received_short_topic device_macro always_ok
           (templated "home/{device}/state") short_topic_message 1).
  - reflexivity.
  - simpl. lia.
Defined.

Lemma message_received_outcome_witness :
  __sensors (message_received device_macro always_ok
               (templated "home/{device}/state") phone1_state).1.1
    !! "phone1"
    = Some (get_sensor (templated "home/{device}/state") "phone1").1.1 ∧
  (message_received device_macro always_ok
     (templated "home/{device}/state") phone1_state).2 = Ok tt.
Proof.
  exact (message_received_outcome device_macro always_ok
           (templated "home/{device}/state") phone1_state "phone1" eq_refl).
Defined.

Lemma deliver_registry_witness :
  registry_wf (deliver device_macro always_ok
                 (templated "home/{device}/state")
                 [phone1_state; short_topic_message; phone1_again]).1 ∧
  dom (__sensors (deliver device_macro always_ok
                    (templated "home/{device}/state")
                    [phone1_state; short_topic_message; phone1_again]).1)
    = {[ "phone1" ]}.
Proof.
  destruct (deliver_registry device_macro always_ok
              [phone1_state; short_topic_message; phone1_again]
              (templated "home/{device}/state"))
    as (Hwf & Hdom & _).
  - apply registry_wf_empty. reflexivity.
  - split; [exact Hwf |]. rewrite Hdom. reflexivity.
Defined.

Lemma create_entity_id_inj_witness : "phone1" = "phone1".
Proof.
  exact (create_entity_id_inj (session_with ∅) "phone1" "phone1"
           "SleepAsAndroid_phone1" eq_refl eq_refl).
Defined.

Lemma self_update_keys_witness :
  ∃ self',
    self_update device_macro
      (session_with {[ "root_topic" := VStr "home"; "qos" := VInt 1 ]})
      = Ok self' ∧
    dom (options (_config_entry self'))
      = {[ "name"; "qos"; "topic_template" ]} ∧
    data (_config_entry self') = ∅ ∧
    __sensors self' = ∅ ∧
    _name self' = VStr "SleepAsAndroid" ∧
    _updating self' = false.
Proof.
  exact (self_update_keys device_macro
           (session_with {[ "root_topic" := VStr "home"; "qos" := VInt 1 ]})
           eq_refl).
Defined.

Lemma migration_runs_once_witness :
  ∃ self self' again,
    init (entry_with {[ "root_topic" := VStr "home" ]}) = Ok self ∧
    (_updating self = true
     ↔ options (entry_with {[ "root_topic" := VStr "home" ]})
         !! "topic_template" = None) ∧
    self_update device_macro self = Ok self' ∧
    init (_config_entry self') = Ok again ∧
    _updating again = false ∧
    _name again = _name self.
Proof.
  exact (migration_runs_once device_macro
           (entry_with {[ "root_topic" := VStr "home" ]}) eq_refl).
Defined.

Lemma self_update_without_legacy_topic_witness :
  ∃ self',
    self_update device_macro (session_with ∅) = Ok self' ∧
    options (_config_entry self') !! "topic_template"
      = Some (VStr "SleepAsAndroid/{device}").
Proof.
  exact (self_update_without_legacy_topic device_macro (session_with ∅)
           eq_refl eq_refl).
Defined.

Lemma self_update_root_topic_subscribable_witness :
  ∃ self',
    self_update device_macro
      (session_with {[ "root_topic" := VStr "home/bedroom" ]}) = Ok self' ∧
    device_position_in_topic device_macro self' = Ok 2%Z ∧
    topic_template device_macro self' = Ok "home/bedroom/+" ∧
    device_name_from_topic device_macro self' "home/bedroom/phone1"
      = Ok "phone1".
Proof.
  apply (self_update_root_topic_subscribable device_macro
           (session_with {[ "root_topic" := VStr "home/bedroom" ]})
           "home/bedroom" "phone1").
  - reflexivity.
  - repeat constructor; done.
  - reflexivity.
  - reflexivity.
Defined.

Lemma subscribe_request_qos_witness :
  subscribe_request device_macro (subscribed_session "home/{device}/state" 2)
    = Ok ("home/+/state", VInt 2).
Proof.
  exact (subscribe_request_qos device_macro
           (subscribed_session "home/{device}/state" 2) "home/+/state"
           eq_refl).
Defined.

Lemma subscribe_request_without_placeholder_witness :
  subscribe_request device_macro (subscribed_session "home/state" 2)
    = Raise IndexError.
Proof.
  apply (subscribe_request_without_placeholder device_macro
           (subscribed_session "home/state" 2) "home/state").
  - reflexivity.
  - repeat constructor; done.
Defined.
